(** * FreesoundDownloader: a shallow embedding of the Freesound API client

    The development follows [src/freesound_downloader.cpp] and
    [include/freesound_downloader.h].  The client is a thin layer over three
    collaborators, each of which is given an explicit model here:

    - the process environment read by [std::getenv];
    - the HTTP library (cpr), whose [Get] either returns a response or raises;
    - the file system written through [std::ofstream], where an open can
      fail and a write can fall short, and the [std::cerr] stream.

    Member functions are computations in a state-and-exception monad whose
    state holds the object ([this]) and the world around it. *)

From Stdlib Require Import Ascii.
From stdpp Require Import base strings list gmap pretty.

Local Open Scope string_scope.
Local Open Scope Z_scope.
Local Open Scope list_scope.

(** ** Values shared with the C++ standard library *)

(** [std::to_string(int)]: the decimal rendering, with a leading minus sign
    for negative values. *)
Definition to_string (n : Z) : string := pretty n.

(** [std::string::empty]. *)
Definition empty (s : string) : bool :=
  match s with
  | EmptyString => true
  | String _ _ => false
  end.

(** Exceptions.  Both classes derive from [std::exception], which is what the
    handler of the advanced search names; the standard library and the HTTP
    library raise nothing else. *)
Inductive exception : Type :=
  | invalid_argument (what : string)
  | transport_error (what : string).

Definition what (e : exception) : string :=
  match e with
  | invalid_argument s => s
  | transport_error s => s
  end.

(** ** The HTTP library *)

Module cpr.

Record Response : Type := mkResponse {
  status_code : Z;
  text : string
}.

(** The options handed to one [cpr::Get] call.  [Parameters] keeps the
    pairs in insertion order, as [cpr::Parameters] does. *)
Record Request : Type := mkRequest {
  Url : string;
  Parameters : list (string * string);
  Header : list (string * string);
  Timeout : option Z
}.

(** [cpr::Parameters::Add] appends one pair. *)
Definition Add (params : list (string * string)) (p : string * string)
  : list (string * string) :=
  params ++ [p].

(** All the values a parameter list carries under one key. *)
Definition values_of (key : string) (params : list (string * string))
  : list string :=
  (filter (λ p, bool_decide (p.1 = key)) params).*2.

(** What the network and the provider do with a request. *)
Inductive Wire : Type :=
  | Replies (r : Response)
  | Fails (what : string).

End cpr.

(** ** The object and the world *)

Record Downloader : Type := mkDownloader {
  m_api_key : string
}.

Record World : Type := mkWorld {
  (** the process environment *)
  environ : gmap string string;
  (** the file system: contents by path *)
  files : gmap string string;
  (** the paths that can be opened for writing *)
  openable : string → bool;
  (** how many bytes a stream opened at a path takes before writing fails;
      [None] when there is no limit *)
  room : string → option nat;
  (** the remote side, which may depend on what was asked before *)
  remote : list cpr.Request → cpr.Request → cpr.Wire;
  (** the requests issued so far, oldest first *)
  sent : list cpr.Request;
  (** the lines written to [std::cerr], oldest first *)
  cerr : list string
}.

Record Machine : Type := mkMachine {
  this : Downloader;
  os : World
}.

(** The answer the remote side gives to [req] in world [w]. *)
Definition answer (w : World) (req : cpr.Request) : cpr.Wire :=
  remote w (sent w) req.

(** The requests issued between two states of the world. *)
Definition issued (w w' : World) : list cpr.Request :=
  drop (length (sent w)) (sent w').

(** ** The monad *)

Inductive outcome (A : Type) : Type :=
  | Returns (a : A)
  | Throws (e : exception).
Arguments Returns {A} a.
Arguments Throws {A} e.

Definition Eff (A : Type) : Type := Machine → outcome A * Machine.

Definition ret {A} (a : A) : Eff A := λ m, (Returns a, m).

Definition bind {A B} (c : Eff A) (k : A → Eff B) : Eff B :=
  λ m, match c m with
       | (Returns a, m') => k a m'
       | (Throws e, m') => (Throws e, m')
       end.

Definition throw {A} (e : exception) : Eff A := λ m, (Throws e, m).

(** [try { body } catch (const std::exception& e) { handler }]: the effects
    of the body up to the throw are kept. *)
Definition try_catch {A} (body : Eff A) (handler : exception → Eff A) : Eff A :=
  λ m, match body m with
       | (Returns a, m') => (Returns a, m')
       | (Throws e, m') => handler e m'
       end.

Notation "x <- c ;; k" := (bind c (λ x, k))
  (at level 100, c at next level, right associativity).
Notation "c ;;; k" := (bind c (λ _, k))
  (at level 100, right associativity).

(** ** Primitive effects *)

Definition get_m_api_key : Eff string :=
  λ m, (Returns (m_api_key (this m)), m).

Definition set_m_api_key (s : string) : Eff unit :=
  λ m, (Returns tt, {| this := {| m_api_key := s |}; os := os m |}).

Definition getenv (name : string) : Eff (option string) :=
  λ m, (Returns (environ (os m) !! name), m).

Definition log_request (req : cpr.Request) (w : World) : World :=
  {| environ := environ w; files := files w; openable := openable w;
     room := room w; remote := remote w; sent := sent w ++ [req];
     cerr := cerr w |}.

(** [files] gives what is read at a path as it is spelled.  Other spellings
    of the path written are not followed: a write is recorded under the
    spelling it was made through. *)
Definition put_file (path contents : string) (w : World) : World :=
  {| environ := environ w; files := <[path := contents]> (files w);
     openable := openable w; room := room w; remote := remote w;
     sent := sent w; cerr := cerr w |}.

Definition put_line (line : string) (w : World) : World :=
  {| environ := environ w; files := files w; openable := openable w;
     room := room w; remote := remote w; sent := sent w;
     cerr := cerr w ++ [line] |}.

(** [cpr::Get]: the request goes out, and the call returns the response or
    raises. *)
Definition Get (req : cpr.Request) : Eff cpr.Response :=
  λ m, let m' := {| this := this m; os := log_request req (os m) |} in
       match answer (os m) req with
       | cpr.Replies r => (Returns r, m')
       | cpr.Fails msg => (Throws (transport_error msg), m')
       end.

(** [std::cerr << ... << std::endl]. *)
Definition cerr_line (line : string) : Eff unit :=
  λ m, (Returns tt, {| this := this m; os := put_line line (os m) |}).

(** An output file stream: the path it was given and whether it is usable. *)
Record ofstream : Type := mkOfstream {
  target : string;
  good : bool
}.

(** [std::ofstream f(path, std::ios::binary)]: opening for output truncates
    the file, or creates it empty; a failed open leaves the file system as it
    was and yields a stream that tests false. *)
Definition ofstream_open (path : string) : Eff ofstream :=
  λ m, if openable (os m) path
       then (Returns {| target := path; good := true |},
             {| this := this m; os := put_file path "" (os m) |})
       else (Returns {| target := path; good := false |}, m).

(** The part of [data] that a stream opened at [path] stores: all of it, or
    the bytes there is room for. *)
Definition taken (w : World) (path data : string) : string :=
  match room w path with
  | None => data
  | Some n => String.substring 0 n data
  end.

(** Whether a stream opened at [path] stores all of [data]. *)
Definition takes (w : World) (path data : string) : bool :=
  match room w path with
  | None => true
  | Some n => (String.length data <=? n)%nat
  end.

(** [f.write(data, size)]: the bytes are appended at the end of what the
    stream has written so far, as far as there is room; when some are left
    over the stream goes bad.  A stream that is not usable writes nothing. *)
Definition ofstream_write (f : ofstream) (data : string) : Eff ofstream :=
  λ m, if good f
       then (Returns {| target := target f;
                        good := takes (os m) (target f) data |},
             {| this := this m;
                os := put_file (target f)
                        (default "" (files (os m) !! target f)
                         +:+ taken (os m) (target f) data)
                        (os m) |})
       else (Returns f, m).

(** [f.close()]. *)
Definition ofstream_close (f : ofstream) : Eff unit := ret tt.

(** ** The client *)

Definition BASE_URL : string := "https://freesound.org/apiv2/".

Definition auth_failure : string :=
  "Freesound API authentication failed. " +:+
  "Provide API key via constructor or FREESOUND_API_KEY environment variable.".

(** The constructor: the member initialiser, then the body. *)
Definition Downloader_ctor (api_key : string) : Eff unit :=
  set_m_api_key api_key ;;;
  key <- get_m_api_key ;;
  if empty key then
    env_key <- getenv "FREESOUND_API_KEY" ;;
    match env_key with
    | Some v => set_m_api_key v
    | None => ret tt
    end ;;;
    key' <- get_m_api_key ;;
    if empty key' then throw (invalid_argument auth_failure) else ret tt
  else ret tt.

(** Constructing an object in world [w]: the object exists only when the
    constructor returns. *)
Definition construct (api_key : string) (w : World)
  : outcome Downloader * World :=
  match Downloader_ctor api_key {| this := {| m_api_key := "" |}; os := w |} with
  | (Returns _, m) => (Returns (this m), os m)
  | (Throws e, m) => (Throws e, os m)
  end.

(** The default argument of the constructor, evaluated by the caller. *)
Definition default_api_key (w : World) : string :=
  match environ w !! "FREESOUND_API_KEY" with
  | Some v => v
  | None => ""
  end.

Definition downloadSound (sound_id : Z) (output_path : string) : Eff bool :=
  let download_url :=
    BASE_URL +:+ "sounds/" +:+ to_string sound_id +:+ "/download/" in
  key <- get_m_api_key ;;
  response <- Get {| cpr.Url := download_url;
                     cpr.Parameters := [("token", key)];
                     cpr.Header := [];
                     cpr.Timeout := None |} ;;
  if negb (cpr.status_code response =? 200) then ret false
  else
    out_file <- ofstream_open output_path ;;
    if negb (good out_file) then ret false
    else
      out_file <- ofstream_write out_file (cpr.text response) ;;
      ofstream_close out_file ;;;
      ret true.

(** The three-argument overload of [searchSounds]. *)
Definition searchSounds (query : string) (page page_size : Z)
  : Eff (option string) :=
  let search_url := BASE_URL +:+ "search/text/" in
  key <- get_m_api_key ;;
  response <- Get {| cpr.Url := search_url;
                     cpr.Parameters :=
                       [("query", query);
                        ("token", key);
                        ("page", to_string page);
                        ("page_size", to_string page_size)];
                     cpr.Header := [];
                     cpr.Timeout := None |} ;;
  if negb (cpr.status_code response =? 200) then ret None
  else ret (Some (cpr.text response)).

(** The seven-argument overload of [searchSounds]. *)
Definition searchSounds_advanced
    (query : string) (filter sort : option string) (page page_size : Z)
    (group_by_pack : bool) (weights : option string) : Eff (option string) :=
  let search_url := BASE_URL +:+ "search/text/" in
  let params :=
    [("query", query);
     ("page", to_string page);
     ("page_size", to_string page_size);
     ("fields", "id,name,username,description,tags,preview-hq-mp3,duration")] in
  let params :=
    match filter with
    | Some v => cpr.Add params ("filter", v)
    | None => params
    end in
  let params :=
    match sort with
    | Some v => cpr.Add params ("sort", v)
    | None => params
    end in
  let params :=
    cpr.Add params ("group_by_pack", if group_by_pack then "1" else "0") in
  let params :=
    match weights with
    | Some v => cpr.Add params ("weights", v)
    | None => params
    end in
  try_catch
    (key <- get_m_api_key ;;
     response <- Get {| cpr.Url := search_url;
                        cpr.Parameters := params;
                        cpr.Header :=
                          [("Authorization", "Token " +:+ key);
                           ("Content-Type", "application/json")];
                        cpr.Timeout := Some 10000 |} ;;
     if cpr.status_code response =? 200 then ret (Some (cpr.text response))
     else
       cerr_line "FREESOUND API ERROR:" ;;;
       cerr_line ("Status Code: " +:+ to_string (cpr.status_code response)) ;;;
       cerr_line ("Full Response: " +:+ cpr.text response) ;;;
       ret None)
    (λ e,
       cerr_line "EXCEPTION DURING FREESOUND SEARCH:" ;;;
       cerr_line (what e) ;;;
       ret None).

(** ** The lifetime of a client *)

(** One call of a member function, as a caller can make it. *)
Inductive call : Type :=
  | call_downloadSound (sound_id : Z) (output_path : string)
  | call_searchSounds (query : string) (page page_size : Z)
  | call_searchSounds_advanced
      (query : string) (filter sort : option string) (page page_size : Z)
      (group_by_pack : bool) (weights : option string).

(** The state a call leaves behind, whether it returns or raises. *)
Definition invoke (c : call) (m : Machine) : Machine :=
  match c with
  | call_downloadSound sound_id output_path =>
      (downloadSound sound_id output_path m).2
  | call_searchSounds query page page_size =>
      (searchSounds query page page_size m).2
  | call_searchSounds_advanced query flt srt page page_size gbp weights =>
      (searchSounds_advanced query flt srt page page_size gbp weights m).2
  end.

(** Between construction and destruction the object sees calls of its member
    functions, and the world around it changes on its own. *)
Inductive lifetime_step : Machine → Machine → Prop :=
  | step_call (c : call) (m : Machine) :
      lifetime_step m (invoke c m)
  | step_world (w : World) (m : Machine) :
      lifetime_step m {| this := this m; os := w |}.

(** ** The requests the operations are specified to issue *)

Definition download_request (key : string) (sound_id : Z) : cpr.Request :=
  {| cpr.Url := BASE_URL +:+ "sounds/" +:+ to_string sound_id +:+ "/download/";
     cpr.Parameters := [("token", key)];
     cpr.Header := [];
     cpr.Timeout := None |}.

Definition simple_search_request (key query : string) (page page_size : Z)
  : cpr.Request :=
  {| cpr.Url := BASE_URL +:+ "search/text/";
     cpr.Parameters :=
       [("query", query); ("token", key);
        ("page", to_string page); ("page_size", to_string page_size)];
     cpr.Header := [];
     cpr.Timeout := None |}.

(** An optional parameter: one pair when supplied, nothing when omitted. *)
Definition optional_param (key : string) (v : option string)
  : list (string * string) :=
  match v with
  | Some s => [(key, s)]
  | None => []
  end.

Definition field_selection : string :=
  "id,name,username,description,tags,preview-hq-mp3,duration".

(** The parameters of the advanced search, in the order they are added. *)
Definition advanced_params
    (query : string) (flt srt : option string) (page page_size : Z)
    (group_by_pack : bool) (weights : option string)
  : list (string * string) :=
  [("query", query); ("page", to_string page);
   ("page_size", to_string page_size); ("fields", field_selection)]
  ++ optional_param "filter" flt
  ++ optional_param "sort" srt
  ++ [("group_by_pack", if group_by_pack then "1" else "0")]
  ++ optional_param "weights" weights.

Definition advanced_search_request
    (key query : string) (flt srt : option string) (page page_size : Z)
    (group_by_pack : bool) (weights : option string) : cpr.Request :=
  {| cpr.Url := BASE_URL +:+ "search/text/";
     cpr.Parameters :=
       advanced_params query flt srt page page_size group_by_pack weights;
     cpr.Header := [("Authorization", "Token " +:+ key);
                    ("Content-Type", "application/json")];
     cpr.Timeout := Some 10000 |}.

(** ** Sample worlds *)

Module Sample.

Definition server (status : Z) (body : string)
  : list cpr.Request → cpr.Request → cpr.Wire :=
  λ _ _, cpr.Replies {| cpr.status_code := status; cpr.text := body |}.

Definition unreachable : list cpr.Request → cpr.Request → cpr.Wire :=
  λ _ _, cpr.Fails "Connection refused".

Definition world (env : gmap string string)
    (srv : list cpr.Request → cpr.Request → cpr.Wire) : World :=
  {| environ := env;
     files := {[ "old.wav" := "RIFFold" ]};
     openable := λ p, negb (String.prefix "/proc/" p);
     room := λ p, if String.prefix "/mnt/full/" p then Some 4%nat else None;
     remote := srv;
     sent := [];
     cerr := [] |}.

Definition client (key : string)
    (srv : list cpr.Request → cpr.Request → cpr.Wire) : Machine :=
  {| this := {| m_api_key := key |}; os := world ∅ srv |}.

End Sample.

(** ** Sequences of calls *)

(** The calls of [cs] made one after the other on the same object, each
    starting where the one before stopped. *)
Fixpoint run_calls (cs : list call) (m : Machine) : Machine :=
  match cs with
  | [] => m
  | c :: cs' => run_calls cs' (invoke c m)
  end.

(** The request a call is specified to issue for a client holding [key]. *)
Definition request_of (key : string) (c : call) : cpr.Request :=
  match c with
  | call_downloadSound sound_id _ => download_request key sound_id
  | call_searchSounds query page page_size =>
      simple_search_request key query page page_size
  | call_searchSounds_advanced query flt srt page page_size gbp weights =>
      advanced_search_request key query flt srt page page_size gbp weights
  end.

(** ** The test support code *)

(** [std::string] searching and erasing, with positions as [size_type]
    values: unsigned 64-bit integers, of which [npos] is the largest. *)
Module str.

Definition size_max : Z := 2 ^ 64.
Definition npos : Z := size_max - 1.

(** Arithmetic on [size_type] wraps around. *)
Definition wrap (n : Z) : Z := n mod size_max.

Definition size (s : string) : Z := Z.of_nat (String.length s).

Fixpoint take (n : nat) (s : string) : string :=
  match n, s with
  | S n', String c t => String c (take n' t)
  | _, _ => ""
  end.

Fixpoint drop (n : nat) (s : string) : string :=
  match n, s with
  | S n', String _ t => drop n' t
  | _, _ => s
  end.

(** Whether character [c] occurs in [set]. *)
Fixpoint mem (c : Ascii.ascii) (set : string) : bool :=
  match set with
  | "" => false
  | String d t => if Ascii.eqb d c then true else mem c t
  end.

(** A position as the library reports it: the index, or [npos]. *)
Definition position (o : option nat) : Z :=
  match o with
  | Some i => Z.of_nat i
  | None => npos
  end.

Fixpoint first_occurrence (needle s : string) : option nat :=
  if String.prefix needle s then Some 0%nat
  else match s with
       | "" => None
       | String _ t => S <$> first_occurrence needle t
       end.

(** [s.find(needle)]. *)
Definition find (needle s : string) : Z :=
  position (first_occurrence needle s).

Fixpoint first_outside (set s : string) : option nat :=
  match s with
  | "" => None
  | String c t => if mem c set then S <$> first_outside set t else Some 0%nat
  end.

(** [s.find_first_not_of(set)]. *)
Definition find_first_not_of (set s : string) : Z :=
  position (first_outside set s).

Fixpoint last_outside (set s : string) : option nat :=
  match s with
  | "" => None
  | String c t =>
      match last_outside set t with
      | Some j => Some (S j)
      | None => if mem c set then None else Some 0%nat
      end
  end.

(** [s.find_last_not_of(set)]. *)
Definition find_last_not_of (set s : string) : Z :=
  position (last_outside set s).

(** [s.substr(pos)]: [None] stands for [std::out_of_range], raised when
    [pos] is past the end; the count defaults to [npos]. *)
Definition substr (pos : Z) (s : string) : option string :=
  if size s <? pos then None
  else Some (take (Z.to_nat (Z.min npos (size s - pos)))
               (drop (Z.to_nat pos) s)).

(** [s.erase(index, count)]: [None] stands for [std::out_of_range], raised
    when [index] is past the end; otherwise [min(count, size - index)]
    characters go, starting at [index]. *)
Definition erase (index count : Z) (s : string) : option string :=
  if size s <? index then None
  else Some (take (Z.to_nat index) s
             +:+ drop (Z.to_nat (index + Z.min count (size s - index))) s).

(** [os << std::quoted(s)]: the text between double quotes, with a backslash
    before each double quote and each backslash. *)
Fixpoint escaped (s : string) : string :=
  match s with
  | "" => ""
  | String c t =>
      if (Ascii.eqb c "034" || Ascii.eqb c "\")%char
      then String "\"%char (String c (escaped t))
      else String c (escaped t)
  end.

Definition quoted (s : string) : string :=
  String "034"%char (escaped s +:+ String "034"%char "").

(** The first line of a stream and what follows its newline. *)
Fixpoint until_newline (s : string) : string * string :=
  match s with
  | "" => ("", "")
  | String c t =>
      if Ascii.eqb c "010"%char then ("", t)
      else (String c (until_newline t).1, (until_newline t).2)
  end.

(** [std::getline(stream, line)]: at the end of the stream nothing is
    extracted and the call fails; otherwise the characters up to the next
    newline make the line, and the newline itself is dropped. *)
Definition getline (stream : string) : option (string * string) :=
  match stream with
  | "" => None
  | String _ _ => Some (until_newline stream)
  end.

(** The lines that [while (std::getline(stream, line))] goes through. *)
Fixpoint getlines (stream : string) : list string :=
  match stream with
  | "" => []
  | String c t =>
      if Ascii.eqb c "010"%char then "" :: getlines t
      else match getlines t with
           | [] => [String c ""]
           | l :: ls => String c l :: ls
           end
  end.

End str.

(** What a test support function ends with: a value, or [std::out_of_range]
    from a string operation. *)
Inductive attempt (A : Type) : Type :=
  | Done (a : A)
  | OutOfRange.
Arguments Done {A} a.
Arguments OutOfRange {A}.

Definition key_assignment : string := "FREESOUND_API_KEY=".

(** The characters stripped from both ends of the value: space, tab, double
    quote and single quote. *)
Definition strip_set : string :=
  String " "%char (String "009"%char (String "034"%char (String "'"%char ""))).

(** The body of the [if] in [loadApiKeyFromEnvFile]: the value after the
    assignment, with the stripped characters erased from both ends. *)
Definition extract_api_key (line : string) : option string :=
  api_key ← str.substr (str.size key_assignment) line;
  api_key ← str.erase 0 (str.find_first_not_of strip_set api_key) api_key;
  str.erase (str.wrap (str.find_last_not_of strip_set api_key + 1)) str.npos
    api_key.

(** The loop of [loadApiKeyFromEnvFile] over the lines still to be read. *)
Fixpoint scan_lines (lines : list string) (w : World)
  : attempt string * World :=
  match lines with
  | [] => (Done "", put_line "FREESOUND_API_KEY not found in .env.local" w)
  | line :: rest =>
      if str.find key_assignment line =? 0
      then (match extract_api_key line with
            | Some api_key => Done api_key
            | None => OutOfRange
            end, w)
      else scan_lines rest w
  end.

(** [loadApiKeyFromEnvFile].  The path of the file, which the source derives
    from the working directory, is a parameter.  The stream opens when the
    file system has a file at that path. *)
Definition loadApiKeyFromEnvFile (env_path : string) (w : World)
  : attempt string * World :=
  match files w !! env_path with
  | None =>
      (Done "",
       put_line ("Failed to open .env.local file at: " +:+ str.quoted env_path)
         w)
  | Some contents => scan_lines (str.getlines contents) w
  end.

(** The text of a file made of the given lines, each ended by a newline. *)
Fixpoint unlines (ls : list string) : string :=
  match ls with
  | [] => ""
  | l :: ls' => l +:+ String "010"%char (unlines ls')
  end.

(** Plain trimming: the characters of [set] dropped from the front, and from
    the back. *)
Fixpoint ltrim (set s : string) : string :=
  match s with
  | "" => ""
  | String c t => if str.mem c set then ltrim set t else s
  end.

Fixpoint rtrim (set s : string) : string :=
  match s with
  | "" => ""
  | String c t =>
      match rtrim set t with
      | "" => if str.mem c set then "" else String c ""
      | t' => String c t'
      end
  end.

Definition trim (set s : string) : string := rtrim set (ltrim set s).

(** Every character of [s] is in [set]. *)
Fixpoint all_in (set s : string) : bool :=
  match s with
  | "" => true
  | String c t => str.mem c set && all_in set t
  end.

Definition first_char (s : string) : option Ascii.ascii :=
  match s with
  | "" => None
  | String c _ => Some c
  end.

Fixpoint last_char (s : string) : option Ascii.ascii :=
  match s with
  | "" => None
  | String c "" => Some c
  | String _ t => last_char t
  end.

Definition outside (set : string) (c : option Ascii.ascii) : bool :=
  match c with
  | Some c => negb (str.mem c set)
  | None => true
  end.

(** [s] neither starts nor ends with a character of [set]. *)
Definition clean_ends (set s : string) : bool :=
  outside set (first_char s) && outside set (last_char s).

(** A string short enough for its length to be a [size_type] position. *)
Definition fits (s : string) : Prop := str.size s ≤ str.npos.

(** [setenv(name, value, 1)]. *)
Definition setenv (name value : string) (w : World) : World :=
  {| environ := <[name := value]> (environ w); files := files w;
     openable := openable w; room := room w; remote := remote w;
     sent := sent w; cerr := cerr w |}.

(** [TEST_CASE("Downloader Initialization")]: the verdicts of the checks it
    reaches, in order, and the world it leaves.  The value read before the
    variable is overwritten is the one written back at the end. *)
Definition test_Downloader_Initialization (w : World) : list bool * World :=
  let original_api_key := environ w !! "FREESOUND_API_KEY" in
  let w1 := setenv "FREESOUND_API_KEY" "test_api_key" w in
  let tried :=
    match construct (default_api_key w1) w1 with
    | (Returns _, w2) => ([true], w2)
    | (Throws _, w2) => ([false], w2)
    end in
  match original_api_key with
  | Some v => (tried.1, setenv "FREESOUND_API_KEY" v tried.2)
  | None => tried
  end.

(** * Properties *)

(** ** Strings and decimal rendering *)

Lemma empty_spec (s : string) : empty s = true ↔ s = "".
Proof. destruct s; simpl; split; congruence. Qed.

Lemma empty_false (s : string) : empty s = false ↔ s ≠ "".
Proof. destruct s; simpl; split; congruence. Qed.

(** Distinct integers have distinct renderings, so distinct identifiers are
    sent to distinct URLs. *)
Lemma to_string_inj (a b : Z) : to_string a = to_string b → a = b.
Proof. unfold to_string. apply (inj pretty). Qed.

Lemma append_inj_l (p s t : string) : p +:+ s = p +:+ t → s = t.
Proof. induction p as [|c p IH]; simpl; [done|]. intros [= H]. auto. Qed.

Lemma append_inj_r (s t q : string) :
  String.length s = String.length t → s +:+ q = t +:+ q → s = t.
Proof.
  revert t. induction s as [|c s IH]; intros [|d t]; simpl; try done.
  intros [= Hlen] [= -> H]. f_equal. auto.
Qed.

(** ** Construction *)

Section construction.
Variable w : World.

Lemma construct_explicit (api_key : string) :
  api_key ≠ "" → construct api_key w = (Returns {| m_api_key := api_key |}, w).
Proof.
  intros Hne. apply empty_false in Hne.
  unfold construct, Downloader_ctor, bind, set_m_api_key, get_m_api_key.
  simpl. by rewrite Hne.
Qed.

Lemma construct_env (v : string) :
  environ w !! "FREESOUND_API_KEY" = Some v → v ≠ "" →
  construct "" w = (Returns {| m_api_key := v |}, w).
Proof.
  intros Henv Hne. apply empty_false in Hne.
  unfold construct, Downloader_ctor, bind, set_m_api_key, get_m_api_key,
    getenv.
  simpl. rewrite Henv. simpl. by rewrite Hne.
Qed.

Lemma construct_env_empty :
  environ w !! "FREESOUND_API_KEY" = Some "" →
  construct "" w = (Throws (invalid_argument auth_failure), w).
Proof.
  intros Henv.
  unfold construct, Downloader_ctor, bind, set_m_api_key, get_m_api_key,
    getenv, throw.
  simpl. by rewrite Henv.
Qed.

Lemma construct_env_unset :
  environ w !! "FREESOUND_API_KEY" = None →
  construct "" w = (Throws (invalid_argument auth_failure), w).
Proof.
  intros Henv.
  unfold construct, Downloader_ctor, bind, set_m_api_key, get_m_api_key,
    getenv, throw.
  simpl. by rewrite Henv.
Qed.

(** The four cases above are all there is. *)
Lemma construct_cases (api_key : string) :
  (api_key ≠ "" ∧
     construct api_key w = (Returns {| m_api_key := api_key |}, w)) ∨
  (api_key = "" ∧ ∃ v, environ w !! "FREESOUND_API_KEY" = Some v ∧ v ≠ "" ∧
     construct api_key w = (Returns {| m_api_key := v |}, w)) ∨
  (api_key = "" ∧
     (environ w !! "FREESOUND_API_KEY" = None ∨
      environ w !! "FREESOUND_API_KEY" = Some "") ∧
     construct api_key w = (Throws (invalid_argument auth_failure), w)).
Proof.
  destruct (decide (api_key = "")) as [->|Hne].
  - right.
    destruct (environ w !! "FREESOUND_API_KEY") as [v|] eqn:Henv.
    + destruct (decide (v = "")) as [->|Hv].
      * right. eauto using construct_env_empty.
      * left. eauto 6 using construct_env.
    + right. eauto using construct_env_unset.
  - left. eauto using construct_explicit.
Qed.

(** Leaving the argument out, so that the default argument is used, is
    the same as passing an empty token. *)
Lemma construct_default : construct (default_api_key w) w = construct "" w.
Proof.
  unfold default_api_key.
  destruct (environ w !! "FREESOUND_API_KEY") as [v|] eqn:Henv; [|done].
  destruct (decide (v = "")) as [->|Hv]; [done|].
  by rewrite construct_explicit, (construct_env v).
Qed.

End construction.

(** ** What one call does *)

Ltac run_call :=
  unfold downloadSound, searchSounds, searchSounds_advanced, try_catch, bind,
    Get, get_m_api_key, ofstream_open, ofstream_write, ofstream_close,
    cerr_line, ret;
  simpl.

Lemma substring_all (n : nat) (s : string) :
  (String.length s ≤ n)%nat → String.substring 0 n s = s.
Proof.
  revert n. induction s as [|c s IH]; intros [|n]; simpl; try done; try lia.
  intros H. f_equal. apply IH. lia.
Qed.

(** A destination that takes all of the data stores it as it is. *)
Lemma taken_all (w : World) (path data : string) :
  takes w path data = true → taken w path data = data.
Proof.
  unfold takes, taken. destruct (room w path) as [n|]; [|done].
  intros H%Nat.leb_le. by apply substring_all.
Qed.

(** [downloadSound], case by case on what comes back. *)
Section download.
Variables (sound_id : Z) (output_path : string) (m : Machine).

Let req : cpr.Request := download_request (m_api_key (this m)) sound_id.
Let m1 : Machine := {| this := this m; os := log_request req (os m) |}.

Lemma downloadSound_fails (msg : string) :
  answer (os m) req = cpr.Fails msg →
  downloadSound sound_id output_path m = (Throws (transport_error msg), m1).
Proof. subst req m1. run_call. unfold download_request. by intros ->. Qed.

Lemma downloadSound_rejected (r : cpr.Response) :
  answer (os m) req = cpr.Replies r → cpr.status_code r ≠ 200 →
  downloadSound sound_id output_path m = (Returns false, m1).
Proof.
  subst req m1. run_call. unfold download_request. intros -> Hst.
  apply Z.eqb_neq in Hst. by rewrite Hst.
Qed.

Lemma downloadSound_unopened (r : cpr.Response) :
  answer (os m) req = cpr.Replies r → cpr.status_code r = 200 →
  openable (os m) output_path = false →
  downloadSound sound_id output_path m = (Returns false, m1).
Proof.
  subst req m1. run_call. unfold download_request. intros -> Hst Hop.
  apply Z.eqb_eq in Hst. rewrite Hst. simpl. by rewrite Hop.
Qed.

Lemma downloadSound_written (r : cpr.Response) :
  answer (os m) req = cpr.Replies r → cpr.status_code r = 200 →
  openable (os m) output_path = true →
  downloadSound sound_id output_path m =
    (Returns true,
     {| this := this m;
        os := put_file output_path (taken (os m) output_path (cpr.text r))
                (put_file output_path "" (os m1)) |}).
Proof.
  subst req m1. run_call. unfold download_request. intros -> Hst Hop.
  apply Z.eqb_eq in Hst. rewrite Hst. simpl. rewrite Hop. simpl.
  by rewrite lookup_insert_eq.
Qed.

End download.

(** No member function assigns to the object. *)
Lemma invoke_this (c : call) (m : Machine) : this (invoke c m) = this m.
Proof.
  destruct c; simpl; run_call.
  - destruct (answer _ _) as [r|msg]; [|done].
    destruct (cpr.status_code r =? 200); [|done]. simpl.
    by destruct (openable _ _).
  - destruct (answer _ _) as [r|msg]; [|done].
    by destruct (cpr.status_code r =? 200).
  - destruct (answer _ _) as [r|msg]; [|done].
    by destruct (cpr.status_code r =? 200).
Qed.

Lemma lifetime_this (m m' : Machine) :
  rtc lifetime_step m m' → this m' = this m.
Proof.
  induction 1 as [|m m1 m2 Hstep _ IH]; [done|].
  rewrite IH. destruct Hstep; [apply invoke_this|done].
Qed.

(** ** What goes out on the wire *)

Lemma issued_snoc (w w' : World) (req : cpr.Request) :
  sent w' = sent w ++ [req] → issued w w' = [req].
Proof. unfold issued. intros ->. by rewrite drop_app_length. Qed.

Lemma downloadSound_sends (sound_id : Z) (output_path : string) (m : Machine) :
  sent (os (downloadSound sound_id output_path m).2) =
  sent (os m) ++ [download_request (m_api_key (this m)) sound_id].
Proof.
  run_call. unfold download_request.
  destruct (answer _ _) as [r|msg]; [|done].
  destruct (cpr.status_code r =? 200); [|done]. simpl.
  by destruct (openable _ _).
Qed.

Lemma searchSounds_sends (query : string) (page page_size : Z) (m : Machine) :
  sent (os (searchSounds query page page_size m).2) =
  sent (os m) ++
    [simple_search_request (m_api_key (this m)) query page page_size].
Proof.
  run_call. unfold simple_search_request.
  destruct (answer _ _) as [r|msg]; [|done].
  by destruct (cpr.status_code r =? 200).
Qed.

Section advanced.
Variables (query : string) (flt srt : option string) (page page_size : Z)
          (group_by_pack : bool) (weights : option string) (m : Machine).

Let req : cpr.Request :=
  advanced_search_request (m_api_key (this m)) query flt srt page page_size
    group_by_pack weights.
Let run : outcome (option string) * Machine :=
  searchSounds_advanced query flt srt page page_size group_by_pack weights m.

Lemma searchSounds_advanced_sends : sent (os run.2) = sent (os m) ++ [req].
Proof.
  subst req run. run_call.
  unfold advanced_search_request, advanced_params, optional_param, cpr.Add,
    field_selection.
  destruct flt, srt, weights; simpl;
    (destruct (answer _ _) as [r|msg]; [|done]);
    by destruct (cpr.status_code r =? 200).
Qed.

Lemma searchSounds_advanced_result :
  run.1 = Returns
            match answer (os m) req with
            | cpr.Replies r =>
                if cpr.status_code r =? 200 then Some (cpr.text r) else None
            | cpr.Fails _ => None
            end.
Proof.
  subst req run. run_call.
  unfold advanced_search_request, advanced_params, optional_param, cpr.Add,
    field_selection.
  destruct flt, srt, weights; simpl;
    (destruct (answer _ _) as [r|msg]; [|done]);
    by destruct (cpr.status_code r =? 200).
Qed.

End advanced.

(** ** Construction: the claims *)

(** C6.  The constructor resolves the token in order: a non-empty explicit
    token is the one stored; with an empty explicit token, a non-empty value
    of [FREESOUND_API_KEY] is the one stored; and construction raises
    [std::invalid_argument] exactly when the explicit token is empty and the
    variable is unset or empty.  Nothing else is ever raised. *)
Theorem construction_resolves_token (api_key : string) (w : World) :
  (api_key ≠ "" →
     (construct api_key w).1 = Returns {| m_api_key := api_key |}) ∧
  (api_key = "" → ∀ v : string,
     environ w !! "FREESOUND_API_KEY" = Some v → v ≠ "" →
     (construct api_key w).1 = Returns {| m_api_key := v |}) ∧
  ((construct api_key w).1 = Throws (invalid_argument auth_failure) ↔
     api_key = "" ∧
     (environ w !! "FREESOUND_API_KEY" = None ∨
      environ w !! "FREESOUND_API_KEY" = Some "")) ∧
  (∀ e : exception,
     (construct api_key w).1 = Throws e → e = invalid_argument auth_failure).
Proof.
  destruct (construct_cases w api_key)
    as [[Hne ->]|[[-> (v & Henv & Hv & ->)]|[-> [Henv ->]]]]; simpl.
  - repeat split; try done. by intros [? _].
  - repeat split; try done.
    + intros _ v' Henv' _. congruence.
    + intros [_ [Hnone|Hempty]]; congruence.
  - repeat split; try done.
    + intros _ v Hv Hne. destruct Henv; congruence.
    + congruence.
Qed.

Lemma construction_resolves_token_witness :
  (construct ""
     (Sample.world {[ "FREESOUND_API_KEY" := "s3cret" ]} Sample.unreachable)).1
  = Returns {| m_api_key := "s3cret" |}.
Proof.
  apply (proj1 (proj2 (construction_resolves_token "" _)));
    [reflexivity | reflexivity | discriminate].
Defined.

(** C7.  With a non-empty explicit token, construction succeeds and stores
    that token whatever the world is: run in two worlds that differ in the
    environment variable (or in anything else), it gives the same object, and
    it leaves each world as it found it. *)
Theorem explicit_token_ignores_environment
    (api_key : string) (w1 w2 : World) :
  api_key ≠ "" →
  (construct api_key w1).1 = Returns {| m_api_key := api_key |} ∧
  (construct api_key w2).1 = (construct api_key w1).1 ∧
  (construct api_key w1).2 = w1 ∧ (construct api_key w2).2 = w2.
Proof. intros Hne. by rewrite !construct_explicit. Qed.

Lemma explicit_token_ignores_environment_witness :
  (construct "abc123" (Sample.world ∅ Sample.unreachable)).1
  = Returns {| m_api_key := "abc123" |} ∧
  (construct "abc123"
     (Sample.world {[ "FREESOUND_API_KEY" := "other" ]} Sample.unreachable)).1
  = (construct "abc123" (Sample.world ∅ Sample.unreachable)).1.
Proof.
  pose proof (explicit_token_ignores_environment "abc123"
                (Sample.world ∅ Sample.unreachable)
                (Sample.world {[ "FREESOUND_API_KEY" := "other" ]}
                   Sample.unreachable)) as H.
  destruct H as (H1 & H2 & _); [discriminate|].
  exact (conj H1 H2).
Defined.

(** C9.  The token of a constructed client is non-empty, and it stays what
    it was through every call of [downloadSound] and of either [searchSounds]
    overload, in any order and number, whatever the calls return or raise and
    however the world changes in between. *)
Theorem token_invariant (api_key : string) (w w' : World) (d : Downloader) :
  construct api_key w = (Returns d, w') →
  m_api_key d ≠ "" ∧
  (∀ (c : call) (m : Machine),
     this m = d → m_api_key (this (invoke c m)) = m_api_key d) ∧
  (∀ m m' : Machine,
     this m = d → rtc lifetime_step m m' → m_api_key (this m') = m_api_key d).
Proof.
  intros Hc. split; [|split].
  - destruct (construct_cases w api_key)
      as [[Hne E]|[[-> (v & _ & Hv & E)]|[-> [_ E]]]];
      rewrite E in Hc; by simplify_eq.
  - intros c m <-. by rewrite invoke_this.
  - intros m m' <- Hlife. by rewrite (lifetime_this _ _ Hlife).
Qed.

Lemma token_invariant_witness :
  m_api_key
    (this (invoke (call_downloadSound 7 "a.wav")
             (Sample.client "abc123" (Sample.server 200 "RIFF"))))
  = "abc123".
Proof.
  apply (proj1 (proj2 (token_invariant "abc123"
                         (Sample.world ∅ Sample.unreachable)
                         (Sample.world ∅ Sample.unreachable)
                         {| m_api_key := "abc123" |} eq_refl))).
  reflexivity.
Defined.

(** ** Download: the claims *)

(** C2.  When the download request is answered with status 200 and body [B]
    and the destination [P] is writable, that is, it can be opened for
    writing and takes all of [B], [downloadSound] returns true and leaves at
    [P] a file whose contents are exactly [B], whatever was there before. *)
Theorem download_writes_body
    (sound_id : Z) (P B : string) (m : Machine) :
  answer (os m) (download_request (m_api_key (this m)) sound_id)
    = cpr.Replies {| cpr.status_code := 200; cpr.text := B |} →
  openable (os m) P = true →
  takes (os m) P B = true →
  (downloadSound sound_id P m).1 = Returns true ∧
  files (os (downloadSound sound_id P m).2) !! P = Some B.
Proof.
  intros Hans Hopen Htakes.
  rewrite (downloadSound_written _ _ _ _ Hans eq_refl Hopen). simpl.
  split; [done|]. by rewrite lookup_insert_eq, (taken_all _ _ _ Htakes).
Qed.

Lemma download_writes_body_witness :
  (downloadSound 42 "old.wav"
     (Sample.client "abc123" (Sample.server 200 "RIFFnew"))).1 = Returns true ∧
  files (os (downloadSound 42 "old.wav"
               (Sample.client "abc123" (Sample.server 200 "RIFFnew"))).2)
    !! "old.wav" = Some "RIFFnew".
Proof.
  apply (download_writes_body 42 "old.wav" "RIFFnew"
           (Sample.client "abc123" (Sample.server 200 "RIFFnew")));
    reflexivity.
Defined.

(** C3.  When the download request is answered with a status other than
    200, [downloadSound] returns false and the file system is what it was:
    no file is created at the destination and an existing one is not
    touched. *)
Theorem download_rejected_leaves_files
    (sound_id : Z) (P : string) (m : Machine) (r : cpr.Response) :
  answer (os m) (download_request (m_api_key (this m)) sound_id)
    = cpr.Replies r →
  cpr.status_code r ≠ 200 →
  (downloadSound sound_id P m).1 = Returns false ∧
  files (os (downloadSound sound_id P m).2) = files (os m) ∧
  openable (os (downloadSound sound_id P m).2) = openable (os m).
Proof.
  intros Hans Hst. by rewrite (downloadSound_rejected _ _ _ _ Hans Hst).
Qed.

Lemma download_rejected_leaves_files_witness :
  (downloadSound 42 "old.wav"
     (Sample.client "abc123" (Sample.server 404 "Not found"))).1
  = Returns false ∧
  files (os (downloadSound 42 "old.wav"
               (Sample.client "abc123" (Sample.server 404 "Not found"))).2)
  = {[ "old.wav" := "RIFFold" ]}.
Proof.
  destruct (download_rejected_leaves_files 42 "old.wav"
              (Sample.client "abc123" (Sample.server 404 "Not found"))
              {| cpr.status_code := 404; cpr.text := "Not found" |})
    as (H1 & H2 & _); [reflexivity | discriminate |].
  exact (conj H1 H2).
Defined.

(** C8.  When the download request is answered with status 200 but the
    destination cannot be opened for writing, [downloadSound] returns false
    and writes nothing; the value returned is the very one returned when the
    remote side rejects a download, so the caller cannot tell the two causes
    apart. *)
Theorem download_unopened_reports_false
    (sound_id : Z) (P : string) (m : Machine) (r : cpr.Response) :
  answer (os m) (download_request (m_api_key (this m)) sound_id)
    = cpr.Replies r →
  cpr.status_code r = 200 →
  openable (os m) P = false →
  (downloadSound sound_id P m).1 = Returns false ∧
  files (os (downloadSound sound_id P m).2) = files (os m) ∧
  (∀ (sound_id' : Z) (P' : string) (m' : Machine) (r' : cpr.Response),
     answer (os m') (download_request (m_api_key (this m')) sound_id')
       = cpr.Replies r' →
     cpr.status_code r' ≠ 200 →
     (downloadSound sound_id' P' m').1 = (downloadSound sound_id P m).1).
Proof.
  intros Hans Hst Hopen.
  rewrite (downloadSound_unopened _ _ _ _ Hans Hst Hopen). simpl.
  repeat split.
  intros sound_id' P' m' r' Hans' Hst'.
  by rewrite (downloadSound_rejected _ _ _ _ Hans' Hst').
Qed.

Lemma download_unopened_reports_false_witness :
  (downloadSound 42 "/proc/sound.wav"
     (Sample.client "abc123" (Sample.server 200 "RIFFnew"))).1
  = Returns false ∧
  (downloadSound 42 "old.wav"
     (Sample.client "abc123" (Sample.server 403 "Forbidden"))).1
  = (downloadSound 42 "/proc/sound.wav"
       (Sample.client "abc123" (Sample.server 200 "RIFFnew"))).1.
Proof.
  destruct (download_unopened_reports_false 42 "/proc/sound.wav"
              (Sample.client "abc123" (Sample.server 200 "RIFFnew"))
              {| cpr.status_code := 200; cpr.text := "RIFFnew" |})
    as (H1 & _ & H3); [reflexivity | reflexivity | reflexivity |].
  split; [exact H1|].
  apply (H3 42 "old.wav"
           (Sample.client "abc123" (Sample.server 403 "Forbidden"))
           {| cpr.status_code := 403; cpr.text := "Forbidden" |});
    [reflexivity | discriminate].
Defined.

(** C10.  [downloadSound] does not look at the identifier: for every
    [sound_id], zero and negative ones included, exactly one request goes
    out, to the URL made of the base URL, ["sounds/"], the decimal rendering
    of [sound_id] and ["/download/"]; and what the call does next depends
    only on what came back and on whether the destination opens: a transport
    failure propagates, a status other than 200 gives false, and status 200
    gives true or false as the file opens or not. *)
Theorem download_does_not_validate_id
    (sound_id : Z) (P : string) (m : Machine) :
  issued (os m) (os (downloadSound sound_id P m).2)
    = [download_request (m_api_key (this m)) sound_id] ∧
  cpr.Url <$> issued (os m) (os (downloadSound sound_id P m).2)
    = [BASE_URL +:+ "sounds/" +:+ to_string sound_id +:+ "/download/"] ∧
  (downloadSound sound_id P m).1 =
    match answer (os m) (download_request (m_api_key (this m)) sound_id) with
    | cpr.Replies r =>
        Returns (if cpr.status_code r =? 200 then openable (os m) P else false)
    | cpr.Fails msg => Throws (transport_error msg)
    end.
Proof.
  pose proof (issued_snoc _ _ _ (downloadSound_sends sound_id P m)) as Hiss.
  split; [done|]. split; [by rewrite Hiss|].
  destruct (answer _ _) as [r|msg] eqn:Hans.
  - destruct (cpr.status_code r =? 200) eqn:Hst.
    + apply Z.eqb_eq in Hst.
      destruct (openable (os m) P) eqn:Hopen.
      * by rewrite (downloadSound_written _ _ _ _ Hans Hst Hopen).
      * by rewrite (downloadSound_unopened _ _ _ _ Hans Hst Hopen).
    + apply Z.eqb_neq in Hst.
      by rewrite (downloadSound_rejected _ _ _ _ Hans Hst).
  - by rewrite (downloadSound_fails _ _ _ _ Hans).
Qed.

Example download_url_zero :
  cpr.Url (download_request "abc123" 0)
  = "https://freesound.org/apiv2/sounds/0/download/".
Proof. reflexivity. Qed.

Example download_url_negative :
  cpr.Url (download_request "abc123" (-2147483648))
  = "https://freesound.org/apiv2/sounds/-2147483648/download/".
Proof. reflexivity. Qed.

Lemma length_append (s t : string) :
  String.length (s +:+ t) = (String.length s + String.length t)%nat.
Proof. induction s as [|c s IH]; simpl; [done|]. by rewrite IH. Qed.

(** Two identifiers are sent to the same URL only when they are equal. *)
Lemma download_url_inj (key key' : string) (a b : Z) :
  cpr.Url (download_request key a) = cpr.Url (download_request key' b) →
  a = b.
Proof.
  unfold download_request; simpl. intros H.
  apply append_inj_l, append_inj_l in H.
  apply to_string_inj, (append_inj_r _ _ "/download/"); [|done].
  apply (f_equal String.length) in H. rewrite !length_append in H. lia.
Qed.

(** ** Search: the claims *)

(** C5.  The simple search sends one request carrying the query, the token,
    the page and the page size; answered with status 200 it returns the
    response body, unchanged, as a present result, and answered with any
    other status it returns an absent result.  This holds for every query,
    the non-empty ones in particular. *)
Theorem simple_search_result
    (query : string) (page page_size : Z) (m : Machine) (r : cpr.Response) :
  answer (os m)
    (simple_search_request (m_api_key (this m)) query page page_size)
    = cpr.Replies r →
  issued (os m) (os (searchSounds query page page_size m).2)
    = [simple_search_request (m_api_key (this m)) query page page_size] ∧
  (cpr.status_code r = 200 →
     (searchSounds query page page_size m).1 = Returns (Some (cpr.text r))) ∧
  (cpr.status_code r ≠ 200 →
     (searchSounds query page page_size m).1 = Returns None).
Proof.
  intros Hans. split; [apply issued_snoc, searchSounds_sends|].
  revert Hans. run_call. unfold simple_search_request. intros ->.
  split; intros Hst.
  - apply Z.eqb_eq in Hst. by rewrite Hst.
  - apply Z.eqb_neq in Hst. by rewrite Hst.
Qed.

Lemma simple_search_result_witness :
  (searchSounds "piano" 1 15
     (Sample.client "abc123" (Sample.server 200 "{}"))).1
  = Returns (Some "{}").
Proof.
  apply (proj1 (proj2 (simple_search_result "piano" 1 15
                         (Sample.client "abc123" (Sample.server 200 "{}"))
                         {| cpr.status_code := 200; cpr.text := "{}" |}
                         eq_refl))).
  reflexivity.
Defined.

(** C1.  The advanced search always returns and never raises.  It sends one
    request; answered with status 200 it returns the response body as a
    present result, answered with any other status it returns an absent
    result, and when the request raises a transport exception the exception
    is caught and the result is absent. *)
Theorem advanced_search_never_throws
    (query : string) (flt srt : option string) (page page_size : Z)
    (group_by_pack : bool) (weights : option string) (m : Machine) :
  let req :=
    advanced_search_request (m_api_key (this m)) query flt srt page page_size
      group_by_pack weights in
  let run :=
    searchSounds_advanced query flt srt page page_size group_by_pack weights m
  in
  issued (os m) (os run.2) = [req] ∧
  (∃ o : option string, run.1 = Returns o) ∧
  (∀ r : cpr.Response,
     answer (os m) req = cpr.Replies r → cpr.status_code r = 200 →
     run.1 = Returns (Some (cpr.text r))) ∧
  (∀ r : cpr.Response,
     answer (os m) req = cpr.Replies r → cpr.status_code r ≠ 200 →
     run.1 = Returns None) ∧
  (∀ msg : string,
     answer (os m) req = cpr.Fails msg → run.1 = Returns None).
Proof.
  intros req run.
  pose proof (searchSounds_advanced_result query flt srt page page_size
                group_by_pack weights m) as Hres.
  fold req run in Hres.
  split; [apply issued_snoc, searchSounds_advanced_sends|].
  split; [eauto|]. rewrite Hres. repeat split.
  - intros r -> Hst. apply Z.eqb_eq in Hst. by rewrite Hst.
  - intros r -> Hst. apply Z.eqb_neq in Hst. by rewrite Hst.
  - by intros msg ->.
Qed.

Lemma advanced_search_never_throws_witness :
  (searchSounds_advanced "piano" (Some "duration:[0 TO 30]") (Some "score")
     1 15 false None (Sample.client "abc123" Sample.unreachable)).1
  = Returns None.
Proof.
  apply (proj2 (proj2 (proj2 (proj2
           (advanced_search_never_throws "piano" (Some "duration:[0 TO 30]")
              (Some "score") 1 15 false None
              (Sample.client "abc123" Sample.unreachable)))))
           "Connection refused").
  reflexivity.
Defined.

(** C4.  The request of the advanced search always carries, once each, the
    query, the page, the page size, the fixed field selection and the
    group-by-pack flag, the flag being ["1"] when true and ["0"] when false.
    Each of filter, sort and weights is carried once, with the value given,
    when it is supplied, and is not carried at all when it is omitted.  No
    other parameter is sent. *)
Theorem advanced_search_parameters
    (query : string) (flt srt : option string) (page page_size : Z)
    (group_by_pack : bool) (weights : option string) (m : Machine) :
  ∃ req : cpr.Request,
    issued (os m)
      (os (searchSounds_advanced query flt srt page page_size group_by_pack
             weights m).2) = [req] ∧
    cpr.values_of "query" (cpr.Parameters req) = [query] ∧
    cpr.values_of "page" (cpr.Parameters req) = [to_string page] ∧
    cpr.values_of "page_size" (cpr.Parameters req) = [to_string page_size] ∧
    cpr.values_of "fields" (cpr.Parameters req)
      = ["id,name,username,description,tags,preview-hq-mp3,duration"] ∧
    cpr.values_of "group_by_pack" (cpr.Parameters req)
      = [if group_by_pack then "1" else "0"] ∧
    cpr.values_of "filter" (cpr.Parameters req) = option_list flt ∧
    cpr.values_of "sort" (cpr.Parameters req) = option_list srt ∧
    cpr.values_of "weights" (cpr.Parameters req) = option_list weights ∧
    (∀ key : string, key ∈ (cpr.Parameters req).*1 →
       key ∈ ["query"; "page"; "page_size"; "fields"; "filter"; "sort";
              "group_by_pack"; "weights"]).
Proof.
  eexists. split; [apply issued_snoc, searchSounds_advanced_sends|].
  unfold advanced_search_request, advanced_params; simpl.
  destruct flt, srt, weights; simpl;
    (repeat split; [vm_compute; reflexivity ..|]);
    intros key; rewrite !elem_of_cons, !elem_of_nil; tauto.
Qed.

(** ** Construction, continued *)

(** X1.  Construction touches nothing: whether it succeeds or raises, no
    request is sent, no file is written, nothing is logged and the
    environment is as it was. *)
Theorem construction_leaves_world (api_key : string) (w : World) :
  (construct api_key w).2 = w.
Proof.
  by destruct (construct_cases w api_key)
    as [[_ ->]|[[_ (v & _ & _ & ->)]|[_ [_ ->]]]].
Qed.

(** X2.  A client built without an argument behaves as one built with an
    empty token: it stores the value of [FREESOUND_API_KEY] when that is set
    and non-empty, and construction raises otherwise. *)
Theorem default_construction (w : World) :
  construct (default_api_key w) w = construct "" w ∧
  (∀ v : string, environ w !! "FREESOUND_API_KEY" = Some v → v ≠ "" →
     (construct (default_api_key w) w).1 = Returns {| m_api_key := v |}) ∧
  ((∃ e, (construct (default_api_key w) w).1 = Throws e) ↔
     environ w !! "FREESOUND_API_KEY" = None ∨
     environ w !! "FREESOUND_API_KEY" = Some "").
Proof.
  rewrite construct_default. split; [done|]. split.
  - intros v Henv Hv. by rewrite (construct_env w v).
  - destruct (construct_cases w "")
      as [[Hne _]|[[_ (v & Henv & Hv & ->)]|[_ [Henv ->]]]]; [done|..]; simpl.
    + split; [by intros [e ?]|]. intros [?|?]; congruence.
    + split; [done|eauto].
Qed.

Lemma default_construction_witness :
  (construct
     (default_api_key
        (Sample.world {[ "FREESOUND_API_KEY" := "s3cret" ]} Sample.unreachable))
     (Sample.world {[ "FREESOUND_API_KEY" := "s3cret" ]} Sample.unreachable)).1
  = Returns {| m_api_key := "s3cret" |}.
Proof.
  apply (proj1 (proj2 (default_construction _))); [reflexivity|discriminate].
Defined.

(** ** Operations, continued *)

(** X3.  The simple search does not guard the request: when the transport
    raises, the exception reaches the caller.  The request has still gone
    out; nothing is logged and no file is touched. *)
Theorem simple_search_propagates_failure
    (query : string) (page page_size : Z) (m : Machine) (msg : string) :
  answer (os m)
    (simple_search_request (m_api_key (this m)) query page page_size)
    = cpr.Fails msg →
  (searchSounds query page page_size m).1 = Throws (transport_error msg) ∧
  issued (os m) (os (searchSounds query page page_size m).2)
    = [simple_search_request (m_api_key (this m)) query page page_size] ∧
  cerr (os (searchSounds query page page_size m).2) = cerr (os m) ∧
  files (os (searchSounds query page page_size m).2) = files (os m).
Proof.
  intros Hans.
  split; [|split; [apply issued_snoc, searchSounds_sends|]];
    revert Hans; run_call; unfold simple_search_request; by intros ->.
Qed.

Lemma simple_search_propagates_failure_witness :
  (searchSounds "piano" 1 15 (Sample.client "abc123" Sample.unreachable)).1
  = Throws (transport_error "Connection refused").
Proof.
  apply (simple_search_propagates_failure "piano" 1 15
           (Sample.client "abc123" Sample.unreachable) "Connection refused").
  reflexivity.
Defined.

(** X4.  [downloadSound] does not guard the request either, and a transport
    failure leaves the destination alone: the exception reaches the caller,
    and the file system is what it was, even when the destination could have
    been opened. *)
Theorem download_failure_leaves_files
    (sound_id : Z) (P : string) (m : Machine) (msg : string) :
  answer (os m) (download_request (m_api_key (this m)) sound_id)
    = cpr.Fails msg →
  (downloadSound sound_id P m).1 = Throws (transport_error msg) ∧
  files (os (downloadSound sound_id P m).2) = files (os m) ∧
  cerr (os (downloadSound sound_id P m).2) = cerr (os m).
Proof. intros Hans. by rewrite (downloadSound_fails _ _ _ _ Hans). Qed.

Lemma download_failure_leaves_files_witness :
  (downloadSound 42 "old.wav" (Sample.client "abc123" Sample.unreachable)).1
  = Throws (transport_error "Connection refused") ∧
  files (os (downloadSound 42 "old.wav"
               (Sample.client "abc123" Sample.unreachable)).2)
  = {[ "old.wav" := "RIFFold" ]}.
Proof.
  destruct (download_failure_leaves_files 42 "old.wav"
              (Sample.client "abc123" Sample.unreachable) "Connection refused")
    as (H1 & H2 & _); [reflexivity|].
  exact (conj H1 H2).
Defined.

(** X5.  The advanced search never puts the token among the query
    parameters, whatever the filter, sort and weights: the token travels in
    the [Authorization] header, after ["Token "], next to a JSON content
    type, and the request carries a timeout of 10000 milliseconds. *)
Theorem advanced_search_credential
    (query : string) (flt srt : option string) (page page_size : Z)
    (group_by_pack : bool) (weights : option string) (m : Machine) :
  ∃ req : cpr.Request,
    issued (os m)
      (os (searchSounds_advanced query flt srt page page_size group_by_pack
             weights m).2) = [req] ∧
    cpr.values_of "token" (cpr.Parameters req) = [] ∧
    cpr.Header req = [("Authorization", "Token " +:+ m_api_key (this m));
                      ("Content-Type", "application/json")] ∧
    cpr.Timeout req = Some 10000 ∧
    cpr.Url req = "https://freesound.org/apiv2/search/text/".
Proof.
  eexists. split; [apply issued_snoc, searchSounds_advanced_sends|].
  unfold advanced_search_request, advanced_params; simpl.
  by destruct flt, srt, weights.
Qed.

(** X6.  The simple search and the download put the token in the query
    string, once, under [token]; their requests have no header and no
    timeout.  The search goes to the same URL as the advanced search. *)
Theorem basic_requests_credential
    (sound_id : Z) (P query : string) (page page_size : Z) (m : Machine) :
  (∃ req : cpr.Request,
     issued (os m) (os (downloadSound sound_id P m).2) = [req] ∧
     cpr.values_of "token" (cpr.Parameters req) = [m_api_key (this m)] ∧
     cpr.Header req = [] ∧ cpr.Timeout req = None) ∧
  (∃ req : cpr.Request,
     issued (os m) (os (searchSounds query page page_size m).2) = [req] ∧
     cpr.values_of "token" (cpr.Parameters req) = [m_api_key (this m)] ∧
     cpr.values_of "query" (cpr.Parameters req) = [query] ∧
     cpr.values_of "page" (cpr.Parameters req) = [to_string page] ∧
     cpr.values_of "page_size" (cpr.Parameters req) = [to_string page_size] ∧
     cpr.values_of "fields" (cpr.Parameters req) = [] ∧
     cpr.Header req = [] ∧ cpr.Timeout req = None ∧
     cpr.Url req = "https://freesound.org/apiv2/search/text/").
Proof.
  split; eexists.
  - split; [apply issued_snoc, downloadSound_sends|]. done.
  - split; [apply issued_snoc, searchSounds_sends|]. done.
Qed.

(** X7.  What the advanced search logs: nothing on status 200; on any other
    status three lines, giving the status code in decimal and the whole
    response body; on a transport exception two lines, the second being the
    exception's message. *)
Theorem advanced_search_diagnostics
    (query : string) (flt srt : option string) (page page_size : Z)
    (group_by_pack : bool) (weights : option string) (m : Machine) :
  cerr (os (searchSounds_advanced query flt srt page page_size group_by_pack
              weights m).2)
  = cerr (os m) ++
    match answer (os m)
            (advanced_search_request (m_api_key (this m)) query flt srt page
               page_size group_by_pack weights) with
    | cpr.Replies r =>
        if cpr.status_code r =? 200 then []
        else ["FREESOUND API ERROR:";
              "Status Code: " +:+ to_string (cpr.status_code r);
              "Full Response: " +:+ cpr.text r]
    | cpr.Fails msg => ["EXCEPTION DURING FREESOUND SEARCH:"; msg]
    end.
Proof.
  run_call.
  unfold advanced_search_request, advanced_params, optional_param, cpr.Add,
    field_selection.
  destruct flt, srt, weights; simpl;
    (destruct (answer _ _) as [r|msg]; simpl;
     [destruct (cpr.status_code r =? 200); simpl|]);
    by rewrite <- ?app_assoc, ?app_nil_r.
Qed.

(** X8.  Neither search overload touches the file system, and the simple
    search logs nothing, whatever comes back. *)
Theorem searches_leave_files
    (query : string) (flt srt : option string) (page page_size : Z)
    (group_by_pack : bool) (weights : option string) (m : Machine) :
  files (os (searchSounds query page page_size m).2) = files (os m) ∧
  cerr (os (searchSounds query page page_size m).2) = cerr (os m) ∧
  files (os (searchSounds_advanced query flt srt page page_size group_by_pack
               weights m).2) = files (os m).
Proof.
  repeat split; run_call.
  - destruct (answer _ _) as [r|msg]; [|done].
    by destruct (cpr.status_code r =? 200).
  - destruct (answer _ _) as [r|msg]; [|done].
    by destruct (cpr.status_code r =? 200).
  - destruct (answer _ _) as [r|msg]; [|done].
    by destruct (cpr.status_code r =? 200).
Qed.

(** X9.  A download that does not report success has not touched the file
    system: when [downloadSound] returns false or raises, every file is as it
    was.  In every outcome nothing is logged. *)
Theorem download_without_success_leaves_files
    (sound_id : Z) (P : string) (m : Machine) :
  ((downloadSound sound_id P m).1 ≠ Returns true →
     files (os (downloadSound sound_id P m).2) = files (os m)) ∧
  cerr (os (downloadSound sound_id P m).2) = cerr (os m).
Proof.
  split; run_call.
  - destruct (answer _ _) as [r|msg]; [|done].
    destruct (cpr.status_code r =? 200); [|done]. simpl.
    by destruct (openable _ _).
  - destruct (answer _ _) as [r|msg]; [|done].
    destruct (cpr.status_code r =? 200); [|done]. simpl.
    by destruct (openable _ _).
Qed.

Lemma download_without_success_leaves_files_witness :
  files (os (downloadSound 42 "/proc/sound.wav"
               (Sample.client "abc123" (Sample.server 200 "RIFFnew"))).2)
  = files (os (Sample.client "abc123" (Sample.server 200 "RIFFnew"))).
Proof.
  apply (proj1 (download_without_success_leaves_files 42 "/proc/sound.wav"
                  (Sample.client "abc123" (Sample.server 200 "RIFFnew")))).
  discriminate.
Defined.

(** ** Sequences of calls *)

Lemma invoke_sends (c : call) (m : Machine) :
  sent (os (invoke c m)) = sent (os m) ++ [request_of (m_api_key (this m)) c].
Proof.
  destruct c; simpl.
  - apply downloadSound_sends.
  - apply searchSounds_sends.
  - apply searchSounds_advanced_sends.
Qed.



Lemma run_calls_sends (cs : list call) (m : Machine) :
  sent (os (run_calls cs m))
  = sent (os m) ++ (request_of (m_api_key (this m)) <$> cs).
Proof.
  revert m. induction cs as [|c cs IH]; intros m; simpl.
  - by rewrite app_nil_r.
  - by rewrite IH, invoke_this, invoke_sends, <- app_assoc.
Qed.

(** X10.  A sequence of calls sends exactly one request per call, in the
    order of the calls and all with the same token, whatever the calls
    return or raise: no call is retried and none is skipped after a
    failure. *)
Theorem calls_send_one_request_each (cs : list call) (m : Machine) :
  issued (os m) (os (run_calls cs m))
  = request_of (m_api_key (this m)) <$> cs.
Proof.
  unfold issued. by rewrite run_calls_sends, drop_app_length.
Qed.


(** X12.  A second download to the same destination replaces the file: after
    a successful download of [B1] that the destination took in full, a
    download answered with status 200 whose body the destination takes in
    full leaves exactly that body there, and one answered with any other
    status leaves [B1] there. *)
Theorem download_replaces_file
    (id1 id2 : Z) (P B1 : string) (m : Machine) (r2 : cpr.Response) :
  answer (os m) (download_request (m_api_key (this m)) id1)
    = cpr.Replies {| cpr.status_code := 200; cpr.text := B1 |} →
  openable (os m) P = true →
  takes (os m) P B1 = true →
  answer (os (downloadSound id1 P m).2)
    (download_request (m_api_key (this m)) id2) = cpr.Replies r2 →
  (cpr.status_code r2 = 200 →
     takes (os (downloadSound id1 P m).2) P (cpr.text r2) = true) →
  files (os (downloadSound id2 P (downloadSound id1 P m).2).2) !! P
  = Some (if cpr.status_code r2 =? 200 then cpr.text r2 else B1).
Proof.
  intros Hans1 Hopen Htakes1.
  pose proof (downloadSound_written _ _ _ _ Hans1 eq_refl Hopen) as E1.
  set (m1 := (downloadSound id1 P m).2) in *.
  assert (this m1 = this m) as Hthis by (subst m1; by rewrite E1).
  assert (openable (os m1) = openable (os m)) as Hop by (subst m1; by rewrite E1).
  assert (files (os m1) !! P = Some B1) as Hfile.
  { subst m1. rewrite E1. simpl.
    by rewrite lookup_insert_eq, (taken_all _ _ _ Htakes1). }
  clearbody m1. rewrite <- Hthis, <- Hop in *. intros Hans2 Htakes2.
  destruct (cpr.status_code r2 =? 200) eqn:Hst.
  - apply Z.eqb_eq in Hst.
    rewrite (downloadSound_written _ _ _ _ Hans2 Hst Hopen). simpl.
    by rewrite lookup_insert_eq, (taken_all _ _ _ (Htakes2 Hst)).
  - apply Z.eqb_neq in Hst.
    by rewrite (downloadSound_rejected _ _ _ _ Hans2 Hst).
Qed.

Lemma download_replaces_file_witness :
  files (os (downloadSound 8 "old.wav"
               (downloadSound 7 "old.wav"
                  (Sample.client "abc123" (Sample.server 200 "RIFFnew"))).2).2)
    !! "old.wav" = Some "RIFFnew".
Proof.
  apply (download_replaces_file 7 8 "old.wav" "RIFFnew"
           (Sample.client "abc123" (Sample.server 200 "RIFFnew"))
           {| cpr.status_code := 200; cpr.text := "RIFFnew" |});
    reflexivity.
Defined.

Lemma length_substring (n : nat) (s : string) :
  (String.length (String.substring 0 n s) ≤ n)%nat.
Proof.
  revert n. induction s as [|c s IH]; intros [|n]; simpl; try lia.
  specialize (IH n). lia.
Qed.

(** X22.  [downloadSound] does not test the stream after writing: answered
    with status 200 and given a destination that opens, it returns true even
    when the destination has room for only the first [n] bytes of a longer
    body, and the file it leaves holds those [n] bytes, not the body. *)
Theorem download_ignores_short_write
    (sound_id : Z) (P B : string) (n : nat) (m : Machine) :
  answer (os m) (download_request (m_api_key (this m)) sound_id)
    = cpr.Replies {| cpr.status_code := 200; cpr.text := B |} →
  openable (os m) P = true →
  room (os m) P = Some n →
  (n < String.length B)%nat →
  (downloadSound sound_id P m).1 = Returns true ∧
  files (os (downloadSound sound_id P m).2) !! P
    = Some (String.substring 0 n B) ∧
  files (os (downloadSound sound_id P m).2) !! P ≠ Some B.
Proof.
  intros Hans Hopen Hroom Hshort.
  rewrite (downloadSound_written _ _ _ _ Hans eq_refl Hopen). simpl.
  rewrite lookup_insert_eq. unfold taken. rewrite Hroom.
  split; [done|]. split; [done|]. intros [= E].
  pose proof (length_substring n B) as Hlen. rewrite E in Hlen. lia.
Qed.

Lemma download_ignores_short_write_witness :
  (downloadSound 42 "/mnt/full/sound.wav"
     (Sample.client "abc123" (Sample.server 200 "RIFFnew"))).1
  = Returns true ∧
  files (os (downloadSound 42 "/mnt/full/sound.wav"
               (Sample.client "abc123" (Sample.server 200 "RIFFnew"))).2)
    !! "/mnt/full/sound.wav" = Some "RIFF".
Proof.
  destruct (download_ignores_short_write 42 "/mnt/full/sound.wav" "RIFFnew" 4
              (Sample.client "abc123" (Sample.server 200 "RIFFnew")))
    as (H1 & H2 & _); [reflexivity | reflexivity | reflexivity | simpl; lia |].
  exact (conj H1 H2).
Defined.

Lemma singleton_inj {A} (x y : A) : [x] = [y] → x = y.
Proof. by intros [= ->]. Qed.

(** X13.  Different identifiers are downloaded from different URLs. *)
Theorem distinct_ids_distinct_urls
    (a b : Z) (P P' : string) (m m' : Machine) :
  a ≠ b →
  cpr.Url <$> issued (os m) (os (downloadSound a P m).2)
  ≠ cpr.Url <$> issued (os m') (os (downloadSound b P' m').2).
Proof.
  intros Hne.
  rewrite !(issued_snoc _ _ _ (downloadSound_sends _ _ _)).
  intros H. apply Hne.
  apply (download_url_inj (m_api_key (this m)) (m_api_key (this m'))).
  exact (singleton_inj _ _ H).
Qed.

Lemma distinct_ids_distinct_urls_witness :
  cpr.Url <$> issued (os (Sample.client "abc123" (Sample.server 200 "a")))
                (os (downloadSound 12 "a.wav"
                       (Sample.client "abc123" (Sample.server 200 "a"))).2)
  ≠ cpr.Url <$> issued (os (Sample.client "abc123" (Sample.server 200 "a")))
                  (os (downloadSound 21 "a.wav"
                         (Sample.client "abc123" (Sample.server 200 "a"))).2).
Proof. apply distinct_ids_distinct_urls. discriminate. Defined.

(** ** Strings: positions, prefixes and erasing *)

Lemma size_nonneg (s : string) : 0 ≤ str.size s.
Proof. unfold str.size. lia. Qed.

Lemma position_zero (o : option nat) : str.position o = 0 ↔ o = Some 0%nat.
Proof.
  destruct o as [[|i]|]; simpl; split; try done; lia.
Qed.

Lemma append_cons (c : Ascii.ascii) (s t : string) :
  String c s +:+ t = String c (s +:+ t).
Proof. done. Qed.

Lemma prefix_append (p s : string) :
  String.prefix p s = true ↔ ∃ t, s = p +:+ t.
Proof.
  revert s. induction p as [|c p IH]; intros s.
  - destruct s; simpl; split; eauto.
  - destruct s as [|d s]; simpl.
    + split; [done|]. by intros [t ?].
    + destruct (ascii_dec c d) as [->|Hne].
      * rewrite IH. split; intros [t Ht]; exists t;
          rewrite append_cons in *; congruence.
      * split; [done|]. intros [t Ht]. rewrite append_cons in Ht. congruence.
Qed.

(** [s.find(needle) == 0] says that [s] starts with [needle]. *)
Lemma find_zero (needle s : string) :
  str.find needle s = 0 ↔ String.prefix needle s = true.
Proof.
  unfold str.find. rewrite position_zero.
  destruct s as [|c s].
  - destruct needle; simpl; split; congruence.
  - change (str.first_occurrence needle (String c s))
      with (if String.prefix needle (String c s) then Some 0%nat
            else S <$> str.first_occurrence needle s).
    destruct (String.prefix needle (String c s)); [done|].
    destruct (str.first_occurrence needle s); split; simpl; congruence.
Qed.

Lemma drop_append (p t : string) : str.drop (String.length p) (p +:+ t) = t.
Proof. induction p as [|c p IH]; simpl; [by destruct t|done]. Qed.

Lemma take_all (n : nat) (s : string) :
  (String.length s ≤ n)%nat → str.take n s = s.
Proof.
  revert n. induction s as [|c s IH]; intros [|n]; simpl; try done; try lia.
  intros H. f_equal. apply IH. lia.
Qed.

Lemma drop_all (n : nat) (s : string) :
  (String.length s ≤ n)%nat → str.drop n s = "".
Proof.
  revert n. induction s as [|c s IH]; intros [|n]; simpl; try done; try lia.
  intros H. apply IH. lia.
Qed.

Lemma append_empty_r (s : string) : s +:+ "" = s.
Proof. induction s as [|c s IH]; [done|]. by rewrite append_cons, IH. Qed.

Lemma append_assoc (a b c : string) : (a +:+ b) +:+ c = a +:+ b +:+ c.
Proof. induction a as [|x a IH]; [done|]. by rewrite !append_cons, IH. Qed.

Lemma length_drop (n : nat) (s : string) :
  (String.length (str.drop n s) ≤ String.length s)%nat.
Proof.
  revert n. induction s as [|c s IH]; intros [|n]; simpl; try lia.
  specialize (IH n). lia.
Qed.

(** ** Trimming *)

Lemma length_ltrim (set s : string) :
  (String.length (ltrim set s) ≤ String.length s)%nat.
Proof.
  induction s as [|c s IH]; simpl; [done|].
  destruct (str.mem c set); simpl; lia.
Qed.

Lemma first_outside_ltrim (set s : string) :
  match str.first_outside set s with
  | Some i => (i < String.length s)%nat ∧ str.drop i s = ltrim set s
  | None => ltrim set s = ""
  end.
Proof.
  induction s as [|c s IH]; simpl; [done|].
  destruct (str.mem c set); simpl; [|split; [lia|done]].
  destruct (str.first_outside set s) as [i|]; simpl; [|done].
  destruct IH. split; [lia|done].
Qed.

Lemma last_outside_rtrim (set s : string) :
  match str.last_outside set s with
  | Some j => (j < String.length s)%nat ∧ str.take (S j) s = rtrim set s
  | None => rtrim set s = ""
  end.
Proof.
  induction s as [|c s IH]; simpl; [done|].
  destruct (str.last_outside set s) as [j|].
  - destruct IH as [Hlt Htake]. split; [lia|].
    rewrite <- Htake. destruct s; [simpl in Hlt; lia|done].
  - rewrite IH. destruct (str.mem c set); [done|]. split; [lia|done].
Qed.

(** Erasing up to the first character outside the set is trimming on the
    left. *)
Lemma erase_front (set s : string) :
  fits s →
  str.erase 0 (str.find_first_not_of set s) s = Some (ltrim set s).
Proof.
  unfold fits, str.erase, str.find_first_not_of. intros Hfit.
  pose proof (size_nonneg s) as Hsz.
  destruct (Z.ltb_spec (str.size s) 0) as [?|_]; [lia|]. simpl.
  pose proof (first_outside_ltrim set s) as H.
  destruct (str.first_outside set s) as [i|]; simpl.
  - destruct H as [Hlt <-]. unfold str.size in *.
    rewrite Z.min_l by lia.
    by replace (Z.to_nat (0 + Z.of_nat i)) with i by lia.
  - rewrite H, Z.min_r by lia. unfold str.size.
    replace (Z.to_nat (0 + (Z.of_nat (String.length s) - 0)))
      with (String.length s) by lia.
    by rewrite drop_all.
Qed.

(** Erasing from one past the last character outside the set is trimming on
    the right; when there is no such character, [npos + 1] wraps to zero and
    everything goes. *)
Lemma erase_back (set s : string) :
  fits s →
  str.erase (str.wrap (str.find_last_not_of set s + 1)) str.npos s
  = Some (rtrim set s).
Proof.
  unfold fits, str.erase, str.find_last_not_of, str.wrap. intros Hfit.
  pose proof (last_outside_rtrim set s) as H.
  assert (str.npos + 1 = str.size_max) as Hnpos by done.
  assert (0 < str.size_max) as Hpos by done.
  destruct (str.last_outside set s) as [j|]; simpl.
  - destruct H as [Hlt <-]. unfold str.size in *.
    rewrite Z.mod_small by lia.
    destruct (Z.ltb_spec (Z.of_nat (String.length s)) (Z.of_nat j + 1));
      [lia|].
    rewrite Z.min_r by lia.
    replace (Z.of_nat j + 1 + (Z.of_nat (String.length s) - (Z.of_nat j + 1)))
      with (Z.of_nat (String.length s)) by lia.
    rewrite Nat2Z.id, drop_all, append_empty_r by lia.
    do 2 f_equal. lia.
  - rewrite H, Hnpos, Z.mod_same by lia.
    pose proof (size_nonneg s).
    destruct (Z.ltb_spec (str.size s) 0); [lia|].
    rewrite Z.min_r by lia. unfold str.size.
    replace (Z.to_nat (0 + (Z.of_nat (String.length s) - 0)))
      with (String.length s) by lia.
    by rewrite drop_all.
Qed.

Lemma ltrim_split (set s : string) :
  ∃ a, s = a +:+ ltrim set s ∧ all_in set a = true.
Proof.
  induction s as [|c s IH]; [by exists ""|]. simpl.
  destruct (str.mem c set) eqn:Hc; [|by exists ""].
  destruct IH as (a & Ha & Hall). exists (String c a).
  rewrite append_cons, <- Ha. simpl. by rewrite Hc, Hall.
Qed.

Lemma rtrim_split (set s : string) :
  ∃ b, s = rtrim set s +:+ b ∧ all_in set b = true.
Proof.
  induction s as [|c s IH]; [by exists ""|]. simpl.
  destruct IH as (b & Hb & Hall).
  destruct (rtrim set s) as [|d t] eqn:Hr.
  - destruct (str.mem c set) eqn:Hc.
    + exists (String c b). simpl in *. rewrite Hc, Hall. by rewrite Hb at 1.
    + exists b. rewrite append_cons. simpl in *. by rewrite Hb at 1.
  - exists b. rewrite append_cons. by rewrite Hb at 1.
Qed.

Lemma first_char_ltrim (set s : string) :
  outside set (first_char (ltrim set s)) = true.
Proof.
  induction s as [|c s IH]; simpl; [done|].
  destruct (str.mem c set) eqn:Hc; [done|]. simpl. by rewrite Hc.
Qed.

Lemma first_char_rtrim (set s : string) :
  outside set (first_char s) = true →
  outside set (first_char (rtrim set s)) = true.
Proof.
  destruct s as [|c s]; simpl; [done|].
  destruct (str.mem c set) eqn:Hc; [done|]. intros _.
  destruct (rtrim set s); simpl; by rewrite Hc.
Qed.

Lemma last_char_rtrim (set s : string) :
  outside set (last_char (rtrim set s)) = true.
Proof.
  induction s as [|c s IH]; [done|]. simpl.
  destruct (rtrim set s) as [|d t] eqn:Hr.
  - destruct (str.mem c set) eqn:Hc; simpl; [done|]. by rewrite Hc.
  - exact IH.
Qed.

Lemma ltrim_id (set s : string) :
  outside set (first_char s) = true → ltrim set s = s.
Proof. destruct s as [|c s]; simpl; [done|]. by destruct (str.mem c set). Qed.

Lemma rtrim_id (set s : string) :
  outside set (last_char s) = true → rtrim set s = s.
Proof.
  induction s as [|c s IH]; [done|]. simpl.
  destruct s as [|d t].
  - simpl. by destruct (str.mem c set).
  - intros H. by rewrite (IH H).
Qed.

Lemma trim_clean (set s : string) : clean_ends set (trim set s) = true.
Proof.
  unfold clean_ends, trim.
  by rewrite first_char_rtrim, last_char_rtrim by apply first_char_ltrim.
Qed.

Lemma trim_id (set s : string) : clean_ends set s = true → trim set s = s.
Proof.
  unfold clean_ends, trim. intros [H1 H2]%andb_true_iff.
  by rewrite (ltrim_id _ _ H1), (rtrim_id _ _ H2).
Qed.

Lemma length_trim (set s : string) :
  (String.length (trim set s) ≤ String.length s)%nat.
Proof.
  unfold trim. pose proof (length_ltrim set s).
  destruct (rtrim_split set (ltrim set s)) as (b & Hb & _).
  apply (f_equal String.length) in Hb. rewrite length_append in Hb. lia.
Qed.

(** ** The assignment line *)

Lemma fits_shorter (s t : string) :
  (String.length t ≤ String.length s)%nat → fits s → fits t.
Proof. unfold fits, str.size. lia. Qed.

Lemma substr_assignment (v : string) :
  fits (key_assignment +:+ v) →
  str.substr (str.size key_assignment) (key_assignment +:+ v) = Some v.
Proof.
  unfold fits, str.substr, str.size. rewrite length_append. intros Hfit.
  destruct (Z.ltb_spec
              (Z.of_nat (String.length key_assignment + String.length v))
              (Z.of_nat (String.length key_assignment))); [lia|].
  rewrite Nat2Z.id, drop_append, take_all; [done|lia].
Qed.

(** On a line that starts with the assignment, the three string operations
    amount to trimming what follows it. *)
Lemma extract_api_key_trims (v : string) :
  fits (key_assignment +:+ v) →
  extract_api_key (key_assignment +:+ v) = Some (trim strip_set v).
Proof.
  intros Hfit. unfold extract_api_key.
  rewrite (substr_assignment v Hfit). simpl.
  assert (fits v) as Hv.
  { eapply fits_shorter; [|exact Hfit]. rewrite length_append. lia. }
  rewrite (erase_front _ _ Hv). simpl.
  apply erase_back. eapply fits_shorter; [apply length_ltrim|exact Hv].
Qed.

Lemma erase_in_range (index count : Z) (s : string) :
  index ≤ str.size s → is_Some (str.erase index count s).
Proof.
  intros H. unfold str.erase.
  destruct (Z.ltb_spec (str.size s) index); [lia|eauto].
Qed.

Lemma wrap_last_in_range (set s : string) :
  str.wrap (str.find_last_not_of set s + 1) ≤ str.size s.
Proof.
  unfold str.wrap, str.find_last_not_of.
  assert (0 < str.size_max) as Hpos by done.
  pose proof (last_outside_rtrim set s) as Hlast.
  destruct (str.last_outside set s) as [j|]; unfold str.position.
  - destruct Hlast as [Hlt _].
    pose proof (Z.mod_le (Z.of_nat j + 1) str.size_max). unfold str.size.
    lia.
  - change (str.npos + 1) with str.size_max. rewrite Z.mod_same by lia.
    apply size_nonneg.
Qed.

(** None of the three string operations can be out of range on a line that
    starts with the assignment, however long the line. *)
Lemma extract_api_key_in_range (line : string) :
  String.prefix key_assignment line = true →
  is_Some (extract_api_key line).
Proof.
  intros [v ->]%prefix_append. unfold extract_api_key.
  assert (is_Some (str.substr (str.size key_assignment) (key_assignment +:+ v)))
    as [v1 ->].
  { unfold str.substr, str.size. rewrite length_append.
    destruct (Z.ltb_spec
                (Z.of_nat (String.length key_assignment + String.length v))
                (Z.of_nat (String.length key_assignment))); [lia|eauto]. }
  destruct (erase_in_range 0 (str.find_first_not_of strip_set v1) v1
              (size_nonneg v1)) as [v2 Hv2].
  destruct (erase_in_range _ str.npos v2 (wrap_last_in_range strip_set v2))
    as [v3 Hv3].
  exists v3. unfold mbind, option_bind. by rewrite Hv2.
Qed.

(** ** Reading lines *)

(** [getlines] is [getline] called until it fails. *)
Lemma getlines_getline (stream : string) :
  str.getlines stream =
  match str.getline stream with
  | None => []
  | Some (line, rest) => line :: str.getlines rest
  end.
Proof.
  induction stream as [|c t IH]; [done|]. simpl.
  destruct (Ascii.eqb c "010"); [done|]. simpl.
  rewrite IH. destruct t as [|d t]; [done|]. simpl.
  by destruct (Ascii.eqb d "010").
Qed.

Lemma getlines_line (l rest : string) :
  str.mem "010" l = false →
  str.getlines (l +:+ String "010" rest) = l :: str.getlines rest.
Proof.
  induction l as [|c l IH].
  { intros _. simpl. done. }
  rewrite append_cons. simpl.
  destruct (Ascii.eqb c "010"); [done|]. intros Hl. by rewrite (IH Hl).
Qed.

Lemma getlines_last (l : string) :
  l ≠ "" → str.mem "010" l = false → str.getlines l = [l].
Proof.
  induction l as [|c l IH]; [done|]. intros _. simpl.
  destruct (Ascii.eqb c "010"); [done|]. intros Hl.
  destruct l as [|d l]; [done|]. by rewrite IH.
Qed.

Lemma getlines_unlines_app (ls : list string) (tail : string) :
  Forall (λ l, str.mem "010" l = false) ls →
  str.getlines (unlines ls +:+ tail) = ls ++ str.getlines tail.
Proof.
  induction 1 as [|l ls Hl _ IH]; [done|]. simpl.
  by rewrite append_assoc, append_cons, (getlines_line _ _ Hl), IH.
Qed.

Lemma getlines_length (s l : string) :
  l ∈ str.getlines s → (String.length l ≤ String.length s)%nat.
Proof.
  revert l. induction s as [|c s IH]; intros l; simpl.
  - by intros ?%elem_of_nil.
  - destruct (Ascii.eqb c "010").
    + intros [->|H]%elem_of_cons; simpl; [lia|]. specialize (IH _ H). lia.
    + destruct (str.getlines s) as [|l0 ls].
      * intros ->%list_elem_of_singleton. simpl. lia.
      * intros [->|H]%elem_of_cons; simpl.
        -- assert (l0 ∈ l0 :: ls) as H0 by left. specialize (IH _ H0). lia.
        -- assert (l ∈ l0 :: ls) as H0 by by right. specialize (IH _ H0). lia.
Qed.

(** X14.  Reading back a file written line by line gives the lines: when no
    line holds a newline, the loop over [std::getline] sees exactly the
    lines written, and a last line without its newline is seen as well. *)
Theorem getlines_unlines (ls : list string) :
  Forall (λ l, str.mem "010" l = false) ls →
  str.getlines (unlines ls) = ls ∧
  (∀ l : string, l ≠ "" → str.mem "010" l = false →
     str.getlines (unlines ls +:+ l) = ls ++ [l]).
Proof.
  intros Hls. split.
  - rewrite <- (append_empty_r (unlines ls)).
    rewrite (getlines_unlines_app _ _ Hls). simpl. by rewrite app_nil_r.
  - intros l Hne Hl.
    by rewrite (getlines_unlines_app _ _ Hls), (getlines_last _ Hne Hl).
Qed.

Lemma getlines_unlines_witness :
  str.getlines (unlines ["# credentials"; ""; "FREESOUND_API_KEY=abc"])
  = ["# credentials"; ""; "FREESOUND_API_KEY=abc"].
Proof.
  refine (proj1 (getlines_unlines
                   ["# credentials"; ""; "FREESOUND_API_KEY=abc"] _)).
  repeat constructor.
Defined.

(** ** Loading the key *)

Lemma scan_lines_skip (before rest : list string) (w : World) :
  Forall (λ l, String.prefix key_assignment l = false) before →
  scan_lines (before ++ rest) w = scan_lines rest w.
Proof.
  induction 1 as [|l before Hl _ IH]; [done|].
  change (scan_lines ((l :: before) ++ rest) w)
    with (if str.find key_assignment l =? 0
          then (match extract_api_key l with
                | Some api_key => Done api_key
                | None => OutOfRange
                end, w)
          else scan_lines (before ++ rest) w).
  destruct (Z.eqb_spec (str.find key_assignment l) 0) as [E|_]; [|done].
  apply find_zero in E. congruence.
Qed.

Lemma scan_lines_hit (line : string) (rest : list string) (w : World) :
  String.prefix key_assignment line = true →
  scan_lines (line :: rest) w =
  (match extract_api_key line with
   | Some api_key => Done api_key
   | None => OutOfRange
   end, w).
Proof.
  intros Hp%find_zero.
  change (scan_lines (line :: rest) w)
    with (if str.find key_assignment line =? 0
          then (match extract_api_key line with
                | Some api_key => Done api_key
                | None => OutOfRange
                end, w)
          else scan_lines rest w).
  by rewrite Hp.
Qed.

Lemma scan_lines_cases (lines : list string) (w : World) :
  (Forall (λ l, String.prefix key_assignment l = false) lines ∧
   scan_lines lines w =
     (Done "", put_line "FREESOUND_API_KEY not found in .env.local" w)) ∨
  (∃ line, line ∈ lines ∧ String.prefix key_assignment line = true ∧
     scan_lines lines w =
       (match extract_api_key line with
        | Some api_key => Done api_key
        | None => OutOfRange
        end, w)).
Proof.
  induction lines as [|l lines IH]; [by left|].
  destruct (String.prefix key_assignment l) eqn:Hp.
  - right. exists l. split; [left|]. split; [done|]. by apply scan_lines_hit.
  - assert (scan_lines (l :: lines) w = scan_lines lines w) as ->.
    { apply (scan_lines_skip [l] lines w). by constructor. }
    destruct IH as [[Hall ->]|(line & Hin & Hline & ->)].
    + left. split; [by constructor|done].
    + right. exists line. split; [by right|done].
Qed.

Lemma mem_append (c : Ascii.ascii) (a b : string) :
  str.mem c (a +:+ b) = str.mem c a || str.mem c b.
Proof.
  induction a as [|d a IH]; [done|]. rewrite append_cons. simpl.
  by destruct (Ascii.eqb d c).
Qed.

(** X15.  The extraction removes only stripped characters, and all of them
    at both ends: on a line made of the assignment and a value [v], the key
    returned is [v] without a leading and a trailing run of spaces, tabs and
    quotes, and the key itself neither starts nor ends with one. *)
Theorem extract_api_key_spec (v : string) :
  fits (key_assignment +:+ v) →
  ∃ k a b : string,
    extract_api_key (key_assignment +:+ v) = Some k ∧
    v = a +:+ k +:+ b ∧
    all_in strip_set a = true ∧ all_in strip_set b = true ∧
    clean_ends strip_set k = true.
Proof.
  intros Hfit.
  destruct (ltrim_split strip_set v) as (a & Ha & Hall_a).
  destruct (rtrim_split strip_set (ltrim strip_set v)) as (b & Hb & Hall_b).
  exists (trim strip_set v), a, b.
  split; [by apply extract_api_key_trims|].
  split; [|by auto using trim_clean].
  unfold trim. by rewrite <- Hb.
Qed.

Lemma extract_api_key_spec_witness :
  ∃ k a b : string,
    extract_api_key "FREESOUND_API_KEY= 'abc def' " = Some k ∧
    " 'abc def' " = a +:+ k +:+ b ∧
    all_in strip_set a = true ∧ all_in strip_set b = true ∧
    clean_ends strip_set k = true.
Proof.
  apply (extract_api_key_spec " 'abc def' "). unfold fits. by vm_compute.
Defined.

(** X16.  [loadApiKeyFromEnvFile] always returns: whatever the file holds,
    no string operation in it is out of range. *)
Theorem load_never_out_of_range (env_path : string) (w : World) :
  ∃ key : string, (loadApiKeyFromEnvFile env_path w).1 = Done key.
Proof.
  unfold loadApiKeyFromEnvFile.
  destruct (files w !! env_path) as [contents|]; [|by exists ""].
  destruct (scan_lines_cases (str.getlines contents) w)
    as [[_ ->]|(line & _ & Hline & ->)]; [by exists ""|].
  destruct (extract_api_key_in_range line Hline) as [k ->]. by exists k.
Qed.

(** X17.  Without an assignment the function returns the empty string and
    logs one line: when the file is not there, the line shows the path
    between double quotes; when the file is there but none of its lines
    starts with [FREESOUND_API_KEY=], the line says so.  Nothing else
    changes. *)
Theorem load_without_assignment (env_path : string) (w : World) :
  (files w !! env_path = None →
     loadApiKeyFromEnvFile env_path w =
       (Done "",
        put_line
          ("Failed to open .env.local file at: " +:+ str.quoted env_path) w)) ∧
  (∀ contents : string,
     files w !! env_path = Some contents →
     Forall (λ l, String.prefix key_assignment l = false)
       (str.getlines contents) →
     loadApiKeyFromEnvFile env_path w =
       (Done "", put_line "FREESOUND_API_KEY not found in .env.local" w)).
Proof.
  unfold loadApiKeyFromEnvFile. split.
  - by intros ->.
  - intros contents -> Hall.
    rewrite <- (app_nil_r (str.getlines contents)).
    by rewrite (scan_lines_skip _ [] w Hall).
Qed.

Lemma load_without_assignment_witness :
  loadApiKeyFromEnvFile "/home/me/.env.local"
    (put_file "/home/me/.env.local"
       (unlines ["# no key here"; " FREESOUND_API_KEY=indented"])
       (Sample.world ∅ Sample.unreachable))
  = (Done "",
     put_line "FREESOUND_API_KEY not found in .env.local"
       (put_file "/home/me/.env.local"
          (unlines ["# no key here"; " FREESOUND_API_KEY=indented"])
          (Sample.world ∅ Sample.unreachable))).
Proof.
  apply (proj2 (load_without_assignment "/home/me/.env.local" _)
           (unlines ["# no key here"; " FREESOUND_API_KEY=indented"])).
  - reflexivity.
  - repeat constructor.
Defined.

(** X18.  Writing the key and reading it back: when the first line that
    starts with [FREESOUND_API_KEY=] continues with [v], up to a newline or
    the end of the file, the function returns [v] trimmed of spaces, tabs and
    quotes at both ends, and [v] itself when it has none there; nothing is
    logged, and later lines are not looked at. *)
Theorem load_round_trip
    (env_path : string) (w : World) (before : list string) (v tail : string) :
  files w !! env_path
    = Some (unlines before +:+ (key_assignment +:+ v) +:+ tail) →
  Forall (λ l, str.mem "010" l = false) before →
  Forall (λ l, String.prefix key_assignment l = false) before →
  str.mem "010" v = false →
  tail = "" ∨ first_char tail = Some "010"%char →
  fits (key_assignment +:+ v) →
  loadApiKeyFromEnvFile env_path w = (Done (trim strip_set v), w) ∧
  (clean_ends strip_set v = true →
     loadApiKeyFromEnvFile env_path w = (Done v, w)).
Proof.
  intros Hfile Hnl Hpre Hv Htail Hfit.
  assert (loadApiKeyFromEnvFile env_path w = (Done (trim strip_set v), w))
    as Hload.
  { unfold loadApiKeyFromEnvFile. rewrite Hfile.
    rewrite (getlines_unlines_app _ _ Hnl).
    assert (str.mem "010" (key_assignment +:+ v) = false) as Hline
      by (by rewrite mem_append, Hv).
    assert (∃ more, str.getlines ((key_assignment +:+ v) +:+ tail)
                    = (key_assignment +:+ v) :: more) as [more ->].
    { destruct Htail as [->|Htail].
      - exists []. rewrite append_empty_r. by apply getlines_last.
      - destruct tail as [|c rest]; [done|]. simpl in Htail.
        injection Htail as ->. eexists. by apply getlines_line. }
    rewrite (scan_lines_skip _ _ w Hpre), scan_lines_hit
      by (apply prefix_append; eauto).
    by rewrite (extract_api_key_trims v Hfit). }
  split; [done|]. intros Hclean. by rewrite Hload, (trim_id _ _ Hclean).
Qed.

Lemma load_round_trip_witness :
  loadApiKeyFromEnvFile "/home/me/.env.local"
    (put_file "/home/me/.env.local"
       (unlines ["# credentials"] +:+ (key_assignment +:+ "'abc123'") +:+ "")
       (Sample.world ∅ Sample.unreachable))
  = (Done "abc123",
     put_file "/home/me/.env.local"
       (unlines ["# credentials"] +:+ (key_assignment +:+ "'abc123'") +:+ "")
       (Sample.world ∅ Sample.unreachable)).
Proof.
  refine (proj1 (load_round_trip "/home/me/.env.local" _ ["# credentials"]
                   "'abc123'" "" _ _ _ _ _ _)).
  - reflexivity.
  - repeat constructor.
  - repeat constructor.
  - reflexivity.
  - by left.
  - unfold fits. by vm_compute.
Defined.

(** X19.  The key that comes back never starts or ends with a space, a tab
    or a quote, whatever the file holds. *)
Theorem load_result_clean
    (env_path contents key : string) (w : World) :
  files w !! env_path = Some contents →
  fits contents →
  (loadApiKeyFromEnvFile env_path w).1 = Done key →
  clean_ends strip_set key = true.
Proof.
  intros Hfile Hfit. unfold loadApiKeyFromEnvFile. rewrite Hfile.
  destruct (scan_lines_cases (str.getlines contents) w)
    as [[_ ->]|(line & Hin & Hline & ->)]; simpl.
  - by intros [= <-].
  - apply prefix_append in Hline as [v ->].
    rewrite extract_api_key_trims.
    + intros [= <-]. apply trim_clean.
    + eapply fits_shorter; [|exact Hfit]. by apply getlines_length.
Qed.

Lemma load_result_clean_witness : clean_ends strip_set "abc def" = true.
Proof.
  apply (load_result_clean "/home/me/.env.local"
           (unlines ["FREESOUND_API_KEY= 'abc def' "]) "abc def"
           (put_file "/home/me/.env.local"
              (unlines ["FREESOUND_API_KEY= 'abc def' "])
              (Sample.world ∅ Sample.unreachable))).
  - reflexivity.
  - unfold fits. by vm_compute.
  - reflexivity.
Defined.

(** ** The initialisation test *)

Lemma setenv_construct (v : string) (w : World) :
  v ≠ "" →
  construct (default_api_key (setenv "FREESOUND_API_KEY" v w))
    (setenv "FREESOUND_API_KEY" v w)
  = (Returns {| m_api_key := v |}, setenv "FREESOUND_API_KEY" v w).
Proof.
  intros Hv. unfold default_api_key. simpl.
  rewrite lookup_insert_eq. by apply construct_explicit.
Qed.

(** X20.  The initialisation test passes in every world: once the variable
    is set, a client built without an argument is constructed, so the check
    in the [try] block is the one reached. *)
Theorem initialization_test_passes (w : World) :
  (test_Downloader_Initialization w).1 = [true].
Proof.
  unfold test_Downloader_Initialization.
  rewrite setenv_construct by done.
  by destruct (environ w !! "FREESOUND_API_KEY").
Qed.

(** X21.  What the initialisation test leaves behind: when the variable was
    set, the environment is as before; when it was not set, it stays set to
    ["test_api_key"], so that a client built afterwards without an argument
    is constructed with that token.  Nothing else changes. *)
Theorem initialization_test_environment (w : World) :
  environ (test_Downloader_Initialization w).2
  = match environ w !! "FREESOUND_API_KEY" with
    | Some _ => environ w
    | None => <[ "FREESOUND_API_KEY" := "test_api_key" ]> (environ w)
    end ∧
  (environ w !! "FREESOUND_API_KEY" = None →
     (construct
        (default_api_key (test_Downloader_Initialization w).2)
        (test_Downloader_Initialization w).2).1
     = Returns {| m_api_key := "test_api_key" |}) ∧
  files (test_Downloader_Initialization w).2 = files w ∧
  sent (test_Downloader_Initialization w).2 = sent w ∧
  cerr (test_Downloader_Initialization w).2 = cerr w.
Proof.
  unfold test_Downloader_Initialization.
  rewrite setenv_construct by done.
  destruct (environ w !! "FREESOUND_API_KEY") as [v|] eqn:Henv; simpl.
  - repeat split; [|done]. by rewrite insert_insert_eq, insert_id.
  - repeat split. intros _. by rewrite setenv_construct.
Qed.

Lemma initialization_test_environment_witness :
  (construct
     (default_api_key
        (test_Downloader_Initialization
           (Sample.world ∅ Sample.unreachable)).2)
     (test_Downloader_Initialization (Sample.world ∅ Sample.unreachable)).2).1
  = Returns {| m_api_key := "test_api_key" |}.
Proof.
  apply (proj1 (proj2 (initialization_test_environment
                         (Sample.world ∅ Sample.unreachable)))).
  reflexivity.
Defined.
